(** * The memory skill: session state machine, text cleaning and scoring

    A shallow embedding of [api.py]: the text cleaner [clean_text], the
    [user_sessions] table with the unit of work of [session_scope], and the two
    endpoints [handler] and [reset].

    Python's [str] is a sequence of Unicode code points and is modelled as a
    list of numbers; the text constants of the program are written as
    literals and decoded from UTF-8. *)

From Stdlib Require Import String Ascii ZArith NArith DecimalString.
From stdpp Require Import base decidable option numbers list.

Local Open Scope N_scope.

(** ** Python strings *)

Definition codepoint := N.

Abbreviation str := (list codepoint).

(** The code points of a UTF-8 byte sequence (the source file is UTF-8). *)
Fixpoint utf8_decode (bs : list N) : str :=
  match bs with
  | [] => []
  | b :: r =>
    if b <? 128 then b :: utf8_decode r
    else if b <? 224 then
      match r with
      | b1 :: r1 => ((b - 192) * 64 + (b1 - 128)) :: utf8_decode r1
      | _ => []
      end
    else if b <? 240 then
      match r with
      | b1 :: b2 :: r2 =>
        ((b - 224) * 4096 + (b1 - 128) * 64 + (b2 - 128)) :: utf8_decode r2
      | _ => []
      end
    else
      match r with
      | b1 :: b2 :: b3 :: r3 =>
        ((b - 240) * 262144 + (b1 - 128) * 4096 + (b2 - 128) * 64 + (b3 - 128))
          :: utf8_decode r3
      | _ => []
      end
  end.

Fixpoint bytes_of_string (s : string) : list N :=
  match s with
  | EmptyString => []
  | String a s' => N_of_ascii a :: bytes_of_string s'
  end.

(** A Python string literal. *)
Definition py (s : string) : str := utf8_decode (bytes_of_string s).

Definition space : codepoint := 32.

(** [sep.join(ws)] *)
Fixpoint join (sep : str) (ws : list str) : str :=
  match ws with
  | [] => []
  | [w] => w
  | w :: ws' => w ++ sep ++ join sep ws'
  end.

(** [str(n)] for an integer [n], as an f-string renders it. *)
Fixpoint uint_codepoints (u : Decimal.uint) : str :=
  match u with
  | Decimal.Nil => []
  | Decimal.D0 u' => 48 :: uint_codepoints u'
  | Decimal.D1 u' => 49 :: uint_codepoints u'
  | Decimal.D2 u' => 50 :: uint_codepoints u'
  | Decimal.D3 u' => 51 :: uint_codepoints u'
  | Decimal.D4 u' => 52 :: uint_codepoints u'
  | Decimal.D5 u' => 53 :: uint_codepoints u'
  | Decimal.D6 u' => 54 :: uint_codepoints u'
  | Decimal.D7 u' => 55 :: uint_codepoints u'
  | Decimal.D8 u' => 56 :: uint_codepoints u'
  | Decimal.D9 u' => 57 :: uint_codepoints u'
  end.

Definition str_of_int (n : Z) : str :=
  match Z.to_int n with
  | Decimal.Pos u => uint_codepoints u
  | Decimal.Neg u => 45 :: uint_codepoints u
  end.

(** ** The Unicode tables behind [str.lower], [str.isalnum], [str.isspace]

    The cleaner relies on three services of the Python runtime.  They are
    Unicode-aware, so they are kept abstract; what the development uses of
    them is stated as laws: the ASCII rows of the tables, and the fact that
    lowercasing leaves alone any text made of characters it has produced
    (CPython maps every character on its own, the capital sigma apart, which
    it maps to one of the two small sigmas by its context; no character that
    comes out of a mapping has a lowercase mapping of its own). *)

Definition ascii_isalnum (c : codepoint) : bool :=
  ((48 <=? c) && (c <=? 57)) || ((65 <=? c) && (c <=? 90))
  || ((97 <=? c) && (c <=? 122)).

Definition ascii_isspace (c : codepoint) : bool :=
  ((9 <=? c) && (c <=? 13)) || ((28 <=? c) && (c <=? 32)).

Definition ascii_lower (c : codepoint) : codepoint :=
  if (65 <=? c) && (c <=? 90) then c + 32 else c.

Definition is_ascii (c : codepoint) : Prop := c < 128.

Class UnicodeData := {
  (** [e.isalnum()] and [e.isspace()] for a one-character string [e] *)
  isalnum : codepoint -> bool;
  isspace : codepoint -> bool;
  (** [text.lower()] (not character-wise: the final sigma is contextual) *)
  lower : str -> str;
  isalnum_ascii : forall c, is_ascii c -> isalnum c = ascii_isalnum c;
  isspace_ascii : forall c, is_ascii c -> isspace c = ascii_isspace c;
  lower_ascii : forall s, Forall is_ascii s -> lower s = map ascii_lower s;
  lower_stable : forall s u,
    (forall d, d ∈ u -> d ∈ lower s \/ d = space) -> lower u = u;
}.

Section Text.
Context `{UnicodeData}.

(** [s.split()]: the maximal runs of non-whitespace characters. [word] is the
    run being read. *)
Definition flush_word (word : str) : list str :=
  match word with [] => [] | _ => [word] end.

Fixpoint split_from (word : str) (s : str) : list str :=
  match s with
  | [] => flush_word word
  | c :: s' =>
    if isspace c then flush_word word ++ split_from [] s'
    else split_from (word ++ [c]) s'
  end.

Definition split (s : str) : list str := split_from [] s.

(** A word of [split]: non-empty and free of whitespace. *)
Definition is_word (w : str) : Prop :=
  w <> [] /\ Forall (fun c => isspace c = false) w.

(** [s.strip()] *)
Fixpoint lstrip (s : str) : str :=
  match s with
  | [] => []
  | c :: s' => if isspace c then lstrip s' else s
  end.

Definition rstrip (s : str) : str := reverse (lstrip (reverse s)).

Definition strip (s : str) : str := rstrip (lstrip s).

(** The generator's test in [clean_text]: [e.isalnum() or e.isspace()]. *)
Definition kept (e : codepoint) : bool := isalnum e || isspace e.

Definition clean_text (text : str) : str :=
  join [space] (split (filter (fun e => kept e = true) (lower text))).

End Text.

(** ** The reference normalizer of the specification

    Written after the specification's wording, to be compared with
    [clean_text]: lowercase; retain alphanumeric and whitespace characters;
    collapse every run of whitespace into one ASCII space; trim leading and
    trailing space. *)

Section Reference.
Context `{UnicodeData}.

Definition retain (s : str) : str :=
  filter (fun e => isalnum e = true \/ isspace e = true) s.

(** Of a run of whitespace only the last character survives, as a space. *)
Fixpoint collapse_whitespace (s : str) : str :=
  match s with
  | [] => []
  | c :: s' =>
    if isspace c then
      match s' with
      | [] => [space]
      | d :: _ => if isspace d then collapse_whitespace s'
                  else space :: collapse_whitespace s'
      end
    else c :: collapse_whitespace s'
  end.

Fixpoint trim_left (s : str) : str :=
  match s with
  | [] => []
  | c :: s' => if decide (c = space) then trim_left s' else s
  end.

Definition trim_right (s : str) : str := reverse (trim_left (reverse s)).

Definition trim (s : str) : str := trim_left (trim_right s).

Definition normalize_reference (text : str) : str :=
  trim (collapse_whitespace (retain (lower text))).

End Reference.

(** ** The similarity scorer *)

(** Modelled from the spec: the edit distance behind [fuzz.ratio], a function
    of the fuzzywuzzy package, which is not among the sources.  Section 4.3
    of the specification describes the scorer as a normalized edit-distance
    ratio (Levenshtein-based).  [ldist] is the edit distance with insertions
    and deletions of cost 1 and substitutions of cost 2, the distance the
    ratio of the Levenshtein library is built on. *)
Fixpoint ldist (s t : str) : nat :=
  match s with
  | [] => length t
  | a :: s' =>
    (fix row (t : str) : nat :=
       match t with
       | [] => length s
       | b :: t' =>
         Nat.min (Nat.min (S (ldist s' t)) (S (row t')))
                 ((if decide (a = b) then 0 else 2) + ldist s' t')%nat
       end) t
  end.

(** The suffixes of a text, the whole text first. *)
Fixpoint tails (t : str) : list str :=
  t :: match t with
       | [] => []
       | _ :: t' => tails t'
       end.

(** The same distance computed row by row: [ldist_row s t] lists the
    distances from [s] to every suffix of [t], the whole of [t] first. *)
Fixpoint base_row (t : str) : list nat :=
  match t with
  | [] => [0%nat]
  | _ :: t' => let r := base_row t' in S (hd 0%nat r) :: r
  end.

Fixpoint next_row (a : codepoint) (t : str) (prev : list nat) : list nat :=
  match t, prev with
  | [], up :: _ => [S up]
  | b :: t', up :: prev' =>
    let rest := next_row a t' prev' in
    Nat.min (Nat.min (S up) (S (hd 0%nat rest)))
            ((if decide (a = b) then 0 else 2) + hd 0%nat prev')%nat
      :: rest
  | _, [] => []
  end.

Fixpoint ldist_row (s t : str) : list nat :=
  match s with
  | [] => base_row t
  | a :: s' => next_row a t (ldist_row s' t)
  end.

Definition ldist_dp (s t : str) : nat := hd 0%nat (ldist_row s t).

(** [p / q] rounded to the nearest integer, ties to the even one. *)
Definition round_half_even (p q : Z) : Z :=
  let d := (p / q)%Z in
  let r := (p mod q)%Z in
  if (2 * r <? q)%Z then d
  else if (q <? 2 * r)%Z then (d + 1)%Z
  else if Z.even d then d else (d + 1)%Z.

(** Modelled from the spec: [fuzz.ratio], which is not among the sources.
    Section 4.3: an integer percentage in 0..100 from a normalized
    edit-distance ratio, with [similarity(x,x) = 100], also for the empty
    string.  Equal texts score 100, an empty text against a non-empty one
    scores 0, and otherwise the score is [100 * (lensum - ldist) / lensum]
    rounded to the nearest integer (ties to even, as Python's [round]), where
    [lensum] is the sum of the two lengths.  The division is exact here; the
    library computes it in floating point. *)
Definition similarity (s1 s2 : str) : Z :=
  if decide (s1 = s2) then 100%Z
  else if decide (length s1 = 0%nat \/ length s2 = 0%nat) then 0%Z
  else
    let lensum := Z.of_nat (length s1 + length s2) in
    round_half_even (100 * (lensum - Z.of_nat (ldist_dp s1 s2))) lensum.

(** ** The [user_sessions] table

    A row of the table, which is also the shape of the mapped object.  The
    surrogate key [id] is assigned by the database and read by no code; rows
    are kept in insertion order and a row's position stands for it.  Every
    column but [id] is nullable in Python ([None]). *)

Record UserSession := {
  session_id : option str;
  original_text : option str;
  state : option str;
}.

Abbreviation table := (list UserSession).

Definition awaiting_original : str := Eval vm_compute in py "awaiting_original".
Definition awaiting_user_input : str := Eval vm_compute in py "awaiting_user_input".

(** [UserSession(session_id=session_id)]: the constructor sets the attributes it
    is given; the others read as [None] until the row is written. *)
Definition UserSession_new (sid : option str) : UserSession :=
  {| session_id := sid; original_text := None; state := None |}.

(** [db_session.query(UserSession).filter_by(session_id=session_id).first()],
    with the position of the row found. *)
Definition query_first (db : table) (sid : option str)
  : option (nat * UserSession) :=
  list_find (fun r => session_id r = sid) db.

(** The INSERT of a new object: [state] has [default='awaiting_original'],
    which the database layer fills in when the object carries no value;
    [session_id] is [nullable=False] and [unique=True], and a violation
    fails the statement. *)
Definition with_defaults (r : UserSession) : UserSession :=
  {| session_id := session_id r;
     original_text := original_text r;
     state := match state r with
              | None => Some awaiting_original
              | Some s => Some s
              end |}.

Definition insert_row (db : table) (r : UserSession) : option table :=
  match session_id r with
  | None => None
  | Some _ =>
    if decide (Exists (fun r' => session_id r' = session_id r) db) then None
    else Some (db ++ [with_defaults r])
  end.

(** Where the object a request works on comes from: a row of the table, or
    [db_session.add] of a new object. *)
Inductive origin :=
  | Persistent (i : nat)
  | Pending.

(** [session.commit()] at the end of [session_scope]: the object is written
    back to its row, or inserted.  [None] is the failed commit: the
    transaction is rolled back and the exception leaves the endpoint. *)
Definition commit (db : table) (o : origin) (obj : UserSession)
  : option table :=
  match o with
  | Persistent i => Some (<[i := obj]> db)
  | Pending => insert_row db obj
  end.

(** ** Requests and responses *)

Record handler_json := {
  json_user_message : option str;
  json_session_id : option str;
}.

Record reset_json := {
  reset_session_id : option str;
}.

Record action := { action_type : str; action_label : str }.

Record button := { title : str; button_action : action }.

Record response := { text : str; end_session : bool }.

(** The JSON object an endpoint answers with; [buttons] is [None] when the
    key is absent. *)
Record body := { body_response : response; buttons : option (list button) }.

(** The outcome of a request: a body (HTTP 200), or the server error of an
    exception that left the endpoint. *)
Inductive outcome :=
  | Body (b : body)
  | ServerError.

(** [jsonify({"response": {"text": t, "end_session": False}})] *)
Definition reply (t : str) : body :=
  {| body_response := {| text := t; end_session := false |};
     buttons := None |}.

Definition msg_prompt : str := Eval vm_compute in py "Введите текст для продолжения.".
Definition msg_saved : str :=
  Eval vm_compute in py "Оригинальный текст сохранён. Теперь расскажите его, как вы запомнили.".
Definition msg_already : str :=
  Eval vm_compute in py "Вы уже ввели оригинальный текст. Теперь расскажите его, как вы запомнили.".
Definition msg_missing : str :=
  Eval vm_compute in py "Ошибка: Оригинальный текст не найден. Введите текст заново.".
Definition msg_error : str := Eval vm_compute in py "Произошла ошибка. Попробуйте снова.".
Definition msg_reset : str := Eval vm_compute in py "Данные сброшены. Введите новый текст.".
Definition msg_not_found : str := Eval vm_compute in py "Сессия не найдена. Введите новый текст.".

Definition newline : codepoint := 10.

Definition reset_button : button :=
  Eval vm_compute in
  {| title := py "Сбросить";
     button_action := {| action_type := py "text";
                         action_label := py "Сбросить" |} |}.

(** The literal parts of the f-string of the similarity branch. *)
Definition txt_percent : str := Eval vm_compute in py "Процент совпадения: ".
Definition txt_percent_sign : str := Eval vm_compute in py "%".
Definition txt_original : str := Eval vm_compute in py "Оригинальный текст: ".
Definition txt_yours : str := Eval vm_compute in py "Ваш текст: ".

(** [session.original_text] when it is truthy: neither [None] nor empty. *)
Definition truthy (o : option str) : option str :=
  match o with
  | Some (c :: t) => Some (c :: t)
  | _ => None
  end.

Section Endpoints.
Context `{UnicodeData}.
(** [fuzz.ratio] *)
Variable fuzz_ratio : str -> str -> Z.

(** The f-string of the similarity branch. *)
Definition response_text (similarity : Z) (original user_message : str) : str :=
  txt_percent ++ str_of_int similarity
    ++ txt_percent_sign ++ [newline; newline]
    ++ txt_original ++ original ++ [newline; newline]
    ++ txt_yours ++ user_message.

(** The dispatch on [session.state] inside [handler]: the object after the
    branch has run, and the body returned. *)
Definition dispatch (session : UserSession) (user_message : str)
  : UserSession * body :=
  if decide (state session = Some awaiting_original) then
    match truthy (original_text session) with
    | None =>
      ({| session_id := session_id session;
          original_text := Some user_message;
          state := Some awaiting_user_input |},
       reply msg_saved)
    | Some _ => (session, reply msg_already)
    end
  else if decide (state session = Some awaiting_user_input) then
    match truthy (original_text session) with
    | None => (session, reply msg_missing)
    | Some original =>
      let original_clean := clean_text original in
      let user_clean := clean_text user_message in
      let similarity := fuzz_ratio original_clean user_clean in
      (session,
       {| body_response :=
            {| text := response_text similarity original user_message;
               end_session := false |};
          buttons := Some [reset_button] |})
    end
  else (session, reply msg_error).

(** [data.get('user_message', '').strip()] *)
Definition message_of (data : handler_json) : str :=
  strip (default [] (json_user_message data)).

(** POST /handler *)
Definition handler (db : table) (data : handler_json) : table * outcome :=
  let user_message := message_of data in
  let sid := json_session_id data in
  if decide (user_message = []) then (db, Body (reply msg_prompt))
  else
    let '(session, o) :=
      match query_first db sid with
      | Some (i, r) => (r, Persistent i)
      | None => (UserSession_new sid, Pending)
      end in
    let '(session', b) := dispatch session user_message in
    match commit db o session' with
    | Some db' => (db', Body b)
    | None => (db, ServerError)
    end.

(** POST /reset *)
Definition reset (db : table) (data : reset_json) : table * outcome :=
  let sid := reset_session_id data in
  match query_first db sid with
  | Some (i, session) =>
    let session' :=
      {| session_id := session_id session;
         original_text := None;
         state := Some awaiting_original |} in
    match commit db (Persistent i) session' with
    | Some db' => (db', Body (reply msg_reset))
    | None => (db, ServerError)
    end
  | None => (db, Body (reply msg_not_found))
  end.

(** The server as a state machine over the table. *)
Inductive request :=
  | PostHandler (data : handler_json)
  | PostReset (data : reset_json).

Definition serve (db : table) (req : request) : table * outcome :=
  match req with
  | PostHandler data => handler db data
  | PostReset data => reset db data
  end.

Definition run (db : table) (reqs : list request) : table :=
  foldl (fun db req => fst (serve db req)) db reqs.

End Endpoints.

(** The invariant of section 3: [original_text] is non-null exactly when the
    session awaits the retelling. *)
Definition session_invariant (r : UserSession) : Prop :=
  is_Some (original_text r) <-> state r = Some awaiting_user_input.

(** What the endpoints keep of every row: it awaits the original with no
    text, or awaits the retelling with a non-empty text. *)
Definition row_ok (r : UserSession) : Prop :=
  (state r = Some awaiting_original /\ original_text r = None)
  \/ (state r = Some awaiting_user_input
      /\ exists c t, original_text r = Some (c :: t)).

(** The row /reset leaves for a session. *)
Definition cleared (r : UserSession) : UserSession :=
  {| session_id := session_id r;
     original_text := None;
     state := Some awaiting_original |}.

(** ** A concrete table: Basic Latin and Cyrillic

    The rows of the Unicode tables for U+0000..U+007F and U+0400..U+045F
    (with the two Latin-1 spaces); every other character is left alone and
    classified as neither alphanumeric nor whitespace.  It agrees with Python
    on texts over these blocks and is used to run the model. *)

Definition basic_isalnum (c : codepoint) : bool :=
  ascii_isalnum c || ((1024 <=? c) && (c <=? 1119)).

Definition basic_isspace (c : codepoint) : bool :=
  ascii_isspace c || (c =? 133) || (c =? 160).

Definition basic_lower_char (c : codepoint) : codepoint :=
  if (65 <=? c) && (c <=? 90) then c + 32
  else if (1024 <=? c) && (c <=? 1039) then c + 80
  else if (1040 <=? c) && (c <=? 1071) then c + 32
  else c.

Definition basic_lower (s : str) : str := map basic_lower_char s.

(** ** Concrete requests and rows, to run the model on *)

Definition s1 : str := Eval vm_compute in py "s1".

Definition quick_fox : handler_json :=
  {| json_user_message := Some (py "The quick fox");
     json_session_id := Some s1 |}.

Definition blank_message : handler_json :=
  {| json_user_message := Some (py "   "); json_session_id := Some s1 |}.

Definition reset_s1 : reset_json := {| reset_session_id := Some s1 |}.

(** The row of [s1] at each stage of its life, and two rows that break the
    invariant: a retelling awaited with no text, and with an empty text. *)
Definition s1_created : UserSession :=
  {| session_id := Some s1;
     original_text := None;
     state := Some awaiting_original |}.

Definition s1_stored : UserSession :=
  {| session_id := Some s1;
     original_text := Some (py "The quick fox");
     state := Some awaiting_user_input |}.

Definition s1_lost : UserSession :=
  {| session_id := Some s1;
     original_text := None;
     state := Some awaiting_user_input |}.

Definition s1_empty : UserSession :=
  {| session_id := Some s1;
     original_text := Some [];
     state := Some awaiting_user_input |}.

(** * Facts *)

Ltac no_branch t :=
  lazymatch t with
  | context [if _ then _ else _] => fail
  | _ => idtac
  end.

Ltac leb_cases :=
  repeat (match goal with
          | |- context [?a <=? ?b] =>
            no_branch a; no_branch b; destruct (N.leb_spec a b)
          | |- context [?a =? ?b] =>
            no_branch a; no_branch b; destruct (N.eqb_spec a b)
          end; simpl; try lia);
  try reflexivity; try lia.

Lemma basic_isalnum_ascii c : is_ascii c -> basic_isalnum c = ascii_isalnum c.
Proof.
  unfold is_ascii, basic_isalnum, ascii_isalnum. intros Hc. leb_cases.
Qed.

Lemma basic_isspace_ascii c : is_ascii c -> basic_isspace c = ascii_isspace c.
Proof.
  unfold is_ascii, basic_isspace, ascii_isspace. intros Hc. leb_cases.
Qed.

Lemma basic_lower_char_ascii c :
  is_ascii c -> basic_lower_char c = ascii_lower c.
Proof.
  unfold is_ascii, basic_lower_char, ascii_lower. intros Hc. leb_cases.
Qed.

Lemma basic_lower_char_idem c :
  basic_lower_char (basic_lower_char c) = basic_lower_char c.
Proof.
  unfold basic_lower_char. leb_cases.
Qed.

Lemma basic_lower_ascii s :
  Forall is_ascii s -> basic_lower s = map ascii_lower s.
Proof.
  unfold basic_lower. induction 1 as [|c s Hc Hs IH]; simpl.
  - reflexivity.
  - rewrite basic_lower_char_ascii by assumption. now rewrite IH.
Qed.

Lemma basic_lower_stable s u :
  (forall d, d ∈ u -> d ∈ basic_lower s \/ d = space) -> basic_lower u = u.
Proof.
  unfold basic_lower. induction u as [|c u IH]; intros Hu; simpl.
  - reflexivity.
  - f_equal.
    + destruct (Hu c) as [Hc | ->].
      * left.
      * apply list_elem_of_fmap in Hc as (c0 & -> & _).
        apply basic_lower_char_idem.
      * reflexivity.
    + apply IH. intros d Hd. apply Hu. now right.
Qed.

Definition basic_unicode : UnicodeData := {|
  isalnum := basic_isalnum;
  isspace := basic_isspace;
  lower := basic_lower;
  isalnum_ascii := basic_isalnum_ascii;
  isspace_ascii := basic_isspace_ascii;
  lower_ascii := basic_lower_ascii;
  lower_stable := basic_lower_stable;
|}.

(** ** The cleaner *)

Section TextFacts.
Context `{UnicodeData}.

Lemma space_ascii : is_ascii space.
Proof. unfold is_ascii, space. lia. Qed.

Lemma isspace_space : isspace space = true.
Proof. rewrite isspace_ascii by apply space_ascii. reflexivity. Qed.

Lemma kept_space : kept space = true.
Proof. unfold kept. rewrite isspace_space. apply orb_true_r. Qed.

Lemma nonspace_not_space c : isspace c = false -> c <> space.
Proof. intros Hc ->. rewrite isspace_space in Hc. discriminate. Qed.

Lemma flush_word_nonempty w : w <> [] -> flush_word w = [w].
Proof. now destruct w. Qed.

Lemma split_from_word_app u w s :
  Forall (fun c => isspace c = false) u ->
  split_from w (u ++ s) = split_from (w ++ u) s.
Proof.
  intros Hu. revert w. induction Hu as [|c u Hc Hu IH]; intros w; simpl.
  - now rewrite app_nil_r.
  - rewrite Hc, IH. now rewrite <- app_assoc.
Qed.

Lemma split_from_space w s :
  split_from w (space :: s) = flush_word w ++ split_from [] s.
Proof. simpl. now rewrite isspace_space. Qed.

(** The words [split] returns are words, made of characters of the text. *)
Lemma split_from_words w s :
  Forall (fun c => isspace c = false) w ->
  Forall (fun x => is_word x /\ x ⊆ w ++ s) (split_from w s).
Proof.
  revert w. induction s as [|c s IH]; intros w Hw.
  - cbn [split_from]. destruct w as [|a w]; cbn [flush_word]; [constructor |].
    constructor; [|constructor].
    split; [split; [discriminate | assumption] |].
    intros d Hd. apply elem_of_app. now left.
  - cbn [split_from]. destruct (isspace c) eqn:Hc.
    + apply Forall_app. split.
      * destruct w as [|a w]; cbn [flush_word]; [constructor |].
        constructor; [|constructor].
        split; [split; [discriminate | assumption] |].
        intros d Hd. apply elem_of_app. now left.
      * eapply Forall_impl; [apply (IH []); constructor |].
        intros x [Hx Hsub]. split; [assumption |].
        intros d Hd. apply elem_of_app. right. right. now apply Hsub.
    + eapply Forall_impl.
      * apply IH. apply Forall_app. split; [assumption |]. now constructor.
      * intros x [Hx Hsub]. split; [assumption |].
        rewrite <- app_assoc in Hsub. exact Hsub.
Qed.

Lemma split_join ws :
  Forall is_word ws -> split (join [space] ws) = ws.
Proof.
  unfold split. induction 1 as [|w ws [Hne Hw] Hws IH]; simpl.
  - reflexivity.
  - destruct ws as [|w2 ws].
    + rewrite <- (app_nil_r w), split_from_word_app by assumption.
      simpl. rewrite app_nil_r. now apply flush_word_nonempty.
    + rewrite split_from_word_app by assumption. simpl app at 1.
      change ([space] ++ ?x) with (space :: x).
      rewrite split_from_space, IH. now rewrite flush_word_nonempty.
Qed.

Lemma elem_of_join d ws :
  d ∈ join [space] ws -> d = space \/ exists w, w ∈ ws /\ d ∈ w.
Proof.
  induction ws as [|w ws IH]; simpl.
  - intros Hd. now apply elem_of_nil in Hd.
  - destruct ws as [|w2 ws].
    + intros Hd. right. exists w. split; [left | assumption].
    + rewrite elem_of_app, elem_of_cons. intros [Hd | [Hd | Hd]].
      * right. exists w. split; [left | assumption].
      * now left.
      * destruct (IH Hd) as [-> | (x & Hx & Hdx)]; [now left |].
        right. exists x. split; [now right | assumption].
Qed.

(** The cleaned text is a list of words joined by single spaces. *)
Lemma clean_text_words text :
  exists ws, clean_text text = join [space] ws
    /\ Forall (fun w =>
         is_word w /\ Forall (fun c => kept c = true /\ c ∈ lower text) w) ws.
Proof.
  unfold clean_text, split.
  exists (split_from [] (filter (fun e => kept e = true) (lower text))).
  split; [reflexivity |].
  eapply Forall_impl; [apply split_from_words; constructor |].
  intros w [Hw Hsub]. split; [assumption |].
  apply Forall_forall. intros c Hc. apply Hsub in Hc. simpl in Hc.
  now apply list_elem_of_filter in Hc.
Qed.

Lemma clean_text_fixed ws :
  Forall (fun w => is_word w /\ Forall (fun c => kept c = true) w) ws ->
  lower (join [space] ws) = join [space] ws ->
  clean_text (join [space] ws) = join [space] ws.
Proof.
  intros Hws Hlow. unfold clean_text. rewrite Hlow.
  assert (Hall : Forall (fun e => kept e = true) (join [space] ws)).
  { apply Forall_forall. intros d Hd.
    apply elem_of_join in Hd as [-> | (w & Hw & Hd)]; [apply kept_space |].
    rewrite Forall_forall in Hws. destruct (Hws w Hw) as [_ Hk].
    rewrite Forall_forall in Hk. now apply Hk. }
  assert (Hfil : forall l : str, Forall (fun e => kept e = true) l ->
                   filter (fun e => kept e = true) l = l).
  { induction 1 as [|c l Hc Hl IH]; [reflexivity |].
    rewrite filter_cons_True by assumption. now rewrite IH. }
  rewrite Hfil by assumption. f_equal. apply split_join.
  eapply Forall_impl; [exact Hws |]. now intros w [Hw _].
Qed.

(** C8. The cleaner is idempotent: cleaning a cleaned text changes nothing,
    for every text and every table of characters that obeys the laws of
    [UnicodeData]. *)
Theorem clean_text_idempotent text :
  clean_text (clean_text text) = clean_text text.
Proof.
  destruct (clean_text_words text) as (ws & -> & Hws).
  apply clean_text_fixed.
  - eapply Forall_impl; [exact Hws |]. intros w [Hw Hk]. split; [assumption |].
    eapply Forall_impl; [exact Hk |]. now intros c [Hc _].
  - apply (lower_stable text). intros d Hd.
    apply elem_of_join in Hd as [-> | (w & Hw & Hd)]; [now right |]. left.
    rewrite Forall_forall in Hws. destruct (Hws w Hw) as [_ Hk].
    rewrite Forall_forall in Hk. now apply Hk.
Qed.

End TextFacts.

(** ** The cleaner against the reference normalizer *)

Section ReferenceFacts.
Context `{UnicodeData}.

Lemma trim_left_snoc l c :
  trim_left (l ++ [c]) =
  match trim_left l with
  | [] => trim_left [c]
  | r => r ++ [c]
  end.
Proof.
  induction l as [|a l IH]; [reflexivity |].
  cbn [app trim_left]. destruct (decide (a = space)); [exact IH | reflexivity].
Qed.

Lemma trim_right_cons_nil c x :
  trim_right x = [] ->
  trim_right (c :: x) = if decide (c = space) then [] else [c].
Proof.
  unfold trim_right. intros Hx.
  apply (f_equal reverse) in Hx. rewrite reverse_involutive in Hx.
  rewrite reverse_cons, trim_left_snoc, Hx. cbn.
  now destruct (decide (c = space)).
Qed.

Lemma trim_right_cons_keep c x :
  trim_right x <> [] -> trim_right (c :: x) = c :: trim_right x.
Proof.
  unfold trim_right. intros Hx.
  rewrite reverse_cons, trim_left_snoc.
  destruct (trim_left (reverse x)) as [|a r] eqn:E; [now destruct Hx |].
  now rewrite reverse_snoc.
Qed.

Lemma trim_right_cons_other c x :
  c <> space -> trim_right (c :: x) = c :: trim_right x.
Proof.
  intros Hc. destruct (trim_right x) as [|a r] eqn:E.
  - rewrite trim_right_cons_nil by assumption.
    now destruct (decide (c = space)).
  - rewrite trim_right_cons_keep, E; [reflexivity |]. now rewrite E.
Qed.

Lemma trim_left_cons_other c x : c <> space -> trim_left (c :: x) = c :: x.
Proof. intros Hc. cbn. now destruct (decide (c = space)). Qed.

Lemma trim_left_cons_space x : trim_left (space :: x) = trim_left x.
Proof. reflexivity. Qed.

Lemma join_cons_cons w x ws :
  join [space] (w :: x :: ws) = w ++ space :: join [space] (x :: ws).
Proof. reflexivity. Qed.

Lemma split_from_cons_space w c s :
  isspace c = true -> split_from w (c :: s) = flush_word w ++ split_from [] s.
Proof. intros Hc. cbn [split_from]. now rewrite Hc. Qed.

Lemma split_from_cons_other w c s :
  isspace c = false -> split_from w (c :: s) = split_from (w ++ [c]) s.
Proof. intros Hc. cbn [split_from]. now rewrite Hc. Qed.

(** Joining the words of a text is collapsing its whitespace and trimming;
    with a word under way, only the right end is left to trim. *)
Lemma join_split_from s :
  join [space] (split_from [] s)
    = trim_left (trim_right (collapse_whitespace s))
  /\ forall w, w <> [] ->
       join [space] (split_from w s)
         = w ++ trim_right (collapse_whitespace s).
Proof.
  induction s as [|c s [IH0 IH1]].
  - split; [reflexivity |]. intros w Hw. cbn [split_from].
    rewrite flush_word_nonempty by assumption. cbn. now rewrite app_nil_r.
  - destruct (isspace c) eqn:Hc.
    + destruct s as [|d s'].
      * split; [cbn; rewrite Hc; reflexivity |]. intros w Hw.
        rewrite split_from_cons_space by assumption.
        rewrite flush_word_nonempty by assumption.
        cbn. rewrite Hc. cbn. now rewrite app_nil_r.
      * destruct (isspace d) eqn:Hd.
        -- assert (Hcol : collapse_whitespace (c :: d :: s')
                          = collapse_whitespace (d :: s')).
           { cbn [collapse_whitespace]. now rewrite Hc, Hd. }
           rewrite Hcol. split.
           ++ rewrite split_from_cons_space by assumption. exact IH0.
           ++ intros w Hw. rewrite <- (IH1 w Hw).
              rewrite !(split_from_cons_space w) by assumption.
              now rewrite (split_from_cons_space [] d) by assumption.
        -- assert (Hcol : collapse_whitespace (c :: d :: s')
                          = space :: collapse_whitespace (d :: s')).
           { cbn [collapse_whitespace]. now rewrite Hc, Hd. }
           assert (Hx : collapse_whitespace (d :: s')
                        = d :: collapse_whitespace s').
           { cbn [collapse_whitespace]. now rewrite Hd. }
           pose proof (nonspace_not_space d Hd) as Hds.
           assert (Htr : trim_right (collapse_whitespace (d :: s'))
                         = d :: trim_right (collapse_whitespace s')).
           { rewrite Hx. now apply trim_right_cons_other. }
           rewrite Hcol, trim_right_cons_keep by (rewrite Htr; discriminate).
           rewrite Htr in *.
           rewrite trim_left_cons_other in IH0 by assumption.
           split.
           ++ rewrite split_from_cons_space by assumption. cbn [flush_word app].
              rewrite IH0, trim_left_cons_space.
              now rewrite trim_left_cons_other.
           ++ intros w Hw. rewrite split_from_cons_space by assumption.
              rewrite flush_word_nonempty by assumption.
              destruct (split_from [] (d :: s')) as [|x L] eqn:EL;
                [discriminate IH0 |].
              cbn [app]. rewrite join_cons_cons. now rewrite IH0.
    + pose proof (nonspace_not_space c Hc) as Hcs.
      assert (Hcol : collapse_whitespace (c :: s)
                     = c :: collapse_whitespace s).
      { cbn [collapse_whitespace]. now rewrite Hc. }
      rewrite Hcol, trim_right_cons_other by assumption. split.
      * rewrite split_from_cons_other by assumption.
        rewrite IH1 by discriminate.
        cbn [app]. now rewrite trim_left_cons_other.
      * intros w Hw. rewrite split_from_cons_other by assumption.
        rewrite IH1 by (now destruct w). now rewrite <- app_assoc.
Qed.

Lemma retain_kept s : retain s = filter (fun e => kept e = true) s.
Proof.
  unfold retain. apply list_filter_iff. intros c. unfold kept.
  now rewrite orb_true_iff.
Qed.

Lemma clean_text_reference text : clean_text text = normalize_reference text.
Proof.
  unfold clean_text, normalize_reference, split, trim.
  rewrite retain_kept. apply join_split_from.
Qed.

End ReferenceFacts.

(** On ASCII text the cleaner is fixed by the ASCII rows of the tables: any
    two tables give the same result. *)

Lemma ascii_lower_ascii c : is_ascii c -> is_ascii (ascii_lower c).
Proof. unfold is_ascii, ascii_lower. intros Hc. leb_cases. Qed.

Lemma split_from_agree (U1 U2 : UnicodeData) w s :
  Forall (fun c => @isspace U1 c = @isspace U2 c) s ->
  @split_from U1 w s = @split_from U2 w s.
Proof.
  intros Hs. revert w. induction Hs as [|c s Hc Hs IH]; intros w.
  - reflexivity.
  - cbn [split_from]. rewrite Hc, (IH []), (IH (w ++ [c])). reflexivity.
Qed.

Lemma filter_kept_agree (U1 U2 : UnicodeData) (s : str) :
  Forall is_ascii s ->
  filter (fun e => @kept U1 e = true) s = filter (fun e => @kept U2 e = true) s
  /\ Forall is_ascii (filter (fun e => @kept U2 e = true) s).
Proof.
  induction 1 as [|c s Hc Hs [IH1 IH2]]; [split; [reflexivity | constructor] |].
  assert (Hk : @kept U1 c = @kept U2 c).
  { unfold kept. now rewrite !isalnum_ascii, !isspace_ascii. }
  rewrite !filter_cons. rewrite <- Hk, IH1.
  destruct (decide (@kept U1 c = true)); split; auto.
Qed.

Lemma clean_text_ascii (U1 U2 : UnicodeData) text :
  Forall is_ascii text -> @clean_text U1 text = @clean_text U2 text.
Proof.
  intros Ht. unfold clean_text, split. rewrite !lower_ascii by assumption.
  assert (Hl : Forall is_ascii (map ascii_lower text)).
  { apply Forall_fmap. eapply Forall_impl; [exact Ht |].
    intros c Hc. now apply ascii_lower_ascii. }
  destruct (filter_kept_agree U1 U2 _ Hl) as [-> Hf]. f_equal.
  apply split_from_agree. eapply Forall_impl; [exact Hf |].
  intros c Hc. now rewrite !isspace_ascii.
Qed.

(** C9. The cleaner equals the reference normalizer of the specification
    (lowercase, retain alphanumeric and whitespace characters, collapse each
    run of whitespace into one ASCII space, trim), for every text and every
    table of characters; and it takes "Hello, World!" to "hello world". *)
Theorem clean_text_refines_reference (U : UnicodeData) :
  (forall text, clean_text text = normalize_reference text)
  /\ clean_text (py "Hello, World!") = py "hello world".
Proof.
  split.
  - apply clean_text_reference.
  - rewrite (clean_text_ascii U basic_unicode).
    + vm_compute. reflexivity.
    + vm_compute py. repeat constructor.
Qed.

(** ** The endpoints *)

Lemma awaiting_states_differ : awaiting_original <> awaiting_user_input.
Proof. vm_compute. discriminate. Qed.

Lemma truthy_Some o t : truthy o = Some t -> o = Some t /\ t <> [].
Proof.
  destruct o as [[|c u]|]; cbn; intros Ht; try discriminate.
  injection Ht as <-. split; [reflexivity | discriminate].
Qed.

Lemma truthy_nonempty t : t <> [] -> truthy (Some t) = Some t.
Proof. now destruct t. Qed.

Lemma truthy_None o : truthy o = None -> o = None \/ o = Some [].
Proof. destruct o as [[|c u]|]; cbn; intros Ht; auto; discriminate. Qed.

Lemma query_first_Some db sid i r :
  query_first db sid = Some (i, r) -> db !! i = Some r /\ session_id r = sid.
Proof.
  unfold query_first. intros Hq. apply list_find_Some in Hq. tauto.
Qed.

Lemma query_first_None db sid :
  query_first db sid = None ->
  ~ Exists (fun r => session_id r = sid) db.
Proof.
  unfold query_first. intros Hq Hex. apply list_find_None in Hq.
  apply Exists_exists in Hex as (r & Hr & Hsid).
  rewrite Forall_forall in Hq. now apply (Hq r).
Qed.


Lemma insert_row_fresh db sid r :
  query_first db (Some sid) = None ->
  session_id r = Some sid ->
  insert_row db r = Some (db ++ [with_defaults r]).
Proof.
  intros Hq Hsid. unfold insert_row. rewrite Hsid.
  destruct (decide _) as [Hex | _]; [| reflexivity].
  now apply query_first_None in Hex.
Qed.

Section EndpointFacts.
Context `{UnicodeData}.
Variable fuzz_ratio : str -> str -> Z.

Lemma handler_message db data :
  message_of data <> [] ->
  handler fuzz_ratio db data =
    match query_first db (json_session_id data) with
    | Some (i, r) =>
      (<[i := (dispatch fuzz_ratio r (message_of data)).1]> db,
       Body (dispatch fuzz_ratio r (message_of data)).2)
    | None =>
      let new := UserSession_new (json_session_id data) in
      match insert_row db (dispatch fuzz_ratio new (message_of data)).1 with
      | Some db' => (db', Body (dispatch fuzz_ratio new (message_of data)).2)
      | None => (db, ServerError)
      end
    end.
Proof.
  intros Hm. unfold handler.
  destruct (decide (message_of data = [])) as [He | _]; [now destruct Hm |].
  destruct (query_first db (json_session_id data)) as [[i r]|].
  - now destruct (dispatch fuzz_ratio r (message_of data)).
  - cbn zeta.
    now destruct (dispatch fuzz_ratio _ (message_of data)).
Qed.

Lemma dispatch_new sid um :
  dispatch fuzz_ratio (UserSession_new sid) um
    = (UserSession_new sid, reply msg_error).
Proof.
  unfold dispatch. cbn [state UserSession_new].
  destruct (decide (None = Some awaiting_original)); [discriminate |].
  destruct (decide (None = Some awaiting_user_input)); [discriminate |].
  reflexivity.
Qed.

Lemma dispatch_store r um :
  state r = Some awaiting_original ->
  truthy (original_text r) = None ->
  dispatch fuzz_ratio r um =
    ({| session_id := session_id r;
        original_text := Some um;
        state := Some awaiting_user_input |},
     reply msg_saved).
Proof.
  intros Hs Ht. unfold dispatch. rewrite Hs, Ht.
  destruct (decide _) as [_ | Hne]; [reflexivity |].
  exfalso. apply Hne. reflexivity.
Qed.

Lemma dispatch_compare r original um :
  state r = Some awaiting_user_input ->
  truthy (original_text r) = Some original ->
  dispatch fuzz_ratio r um =
    (r,
     {| body_response :=
          {| text := response_text
                       (fuzz_ratio (clean_text original) (clean_text um))
                       original um;
             end_session := false |};
        buttons := Some [reset_button] |}).
Proof.
  intros Hs Ht. unfold dispatch. rewrite Hs, Ht.
  destruct (decide (Some awaiting_user_input = Some awaiting_original))
    as [He | _].
  - exfalso. apply awaiting_states_differ. congruence.
  - destruct (decide _) as [_ | Hne]; [reflexivity |].
    exfalso. apply Hne. reflexivity.
Qed.

Lemma dispatch_missing r um :
  state r = Some awaiting_user_input ->
  truthy (original_text r) = None ->
  dispatch fuzz_ratio r um = (r, reply msg_missing).
Proof.
  intros Hs Ht. unfold dispatch. rewrite Hs, Ht.
  destruct (decide (Some awaiting_user_input = Some awaiting_original))
    as [He | _].
  - exfalso. apply awaiting_states_differ. congruence.
  - destruct (decide _) as [_ | Hne]; [reflexivity |].
    exfalso. apply Hne. reflexivity.
Qed.

(** Outside the comparison branch the body carries no buttons. *)
Lemma dispatch_buttons r um :
  buttons (dispatch fuzz_ratio r um).2 <> None ->
  state r = Some awaiting_user_input
  /\ exists original, truthy (original_text r) = Some original.
Proof.
  unfold dispatch.
  destruct (decide (state r = Some awaiting_original)).
  - destruct (truthy (original_text r)); cbn; intros Hb; now destruct Hb.
  - destruct (decide (state r = Some awaiting_user_input)) as [Hs | _].
    + destruct (truthy (original_text r)) as [original|] eqn:Ht; cbn.
      * intros _. split; [assumption |]. now exists original.
      * intros Hb. now destruct Hb.
    + cbn. intros Hb. now destruct Hb.
Qed.

Lemma handler_blank db data :
  message_of data = [] ->
  handler fuzz_ratio db data = (db, Body (reply msg_prompt)).
Proof.
  intros He. unfold handler.
  destruct (decide (message_of data = [])); [reflexivity | contradiction].
Qed.

Lemma handler_found db data i r :
  message_of data <> [] ->
  query_first db (json_session_id data) = Some (i, r) ->
  handler fuzz_ratio db data =
    (<[i := (dispatch fuzz_ratio r (message_of data)).1]> db,
     Body (dispatch fuzz_ratio r (message_of data)).2).
Proof. intros Hm Hq. rewrite handler_message by assumption. now rewrite Hq. Qed.

Lemma handler_created db data sid :
  message_of data <> [] ->
  json_session_id data = Some sid ->
  query_first db (Some sid) = None ->
  handler fuzz_ratio db data =
    (db ++ [{| session_id := Some sid;
               original_text := None;
               state := Some awaiting_original |}],
     Body (reply msg_error)).
Proof.
  intros Hm Hsid Hq. rewrite handler_message by assumption.
  rewrite Hsid, Hq. cbn zeta. rewrite dispatch_new. cbn [fst snd].
  rewrite (insert_row_fresh db sid) by (assumption || reflexivity).
  reflexivity.
Qed.

(** *** The invariant along the runs of the server *)

Lemma row_ok_invariant r : row_ok r -> session_invariant r.
Proof.
  unfold session_invariant.
  intros [[Hs Ht] | [Hs (c & t & Ht)]]; rewrite Hs, Ht; split.
  - intros [x Hx]. discriminate Hx.
  - intros He. exfalso. apply awaiting_states_differ. congruence.
  - reflexivity.
  - intros _. now eexists.
Qed.

Lemma dispatch_row_ok r um :
  um <> [] -> row_ok r -> row_ok (dispatch fuzz_ratio r um).1.
Proof.
  intros Hum [[Hs Ht] | [Hs (c & t & Ht)]].
  - rewrite dispatch_store by (rewrite ?Ht; auto). right. cbn [fst state original_text].
    split; [reflexivity |]. destruct um as [|c t]; [now destruct Hum |].
    now exists c, t.
  - rewrite (dispatch_compare r (c :: t)) by (rewrite ?Ht; auto).
    right. split; [assumption |]. now exists c, t.
Qed.

Lemma handler_row_ok db data :
  Forall row_ok db -> Forall row_ok (handler fuzz_ratio db data).1.
Proof.
  intros Hdb. destruct (decide (message_of data = [])) as [He | Hm].
  - now rewrite handler_blank.
  - rewrite handler_message by assumption.
    destruct (query_first db (json_session_id data)) as [[i r]|] eqn:Hq.
    + cbn [fst]. apply Forall_insert; [assumption |].
      apply dispatch_row_ok; [assumption |].
      apply query_first_Some in Hq as [Hi _].
      exact (Forall_lookup_1 _ _ _ _ Hdb Hi).
    + cbn zeta. rewrite dispatch_new. cbn [fst snd]. unfold insert_row.
      destruct (session_id (UserSession_new (json_session_id data)));
        [| assumption].
      destruct (decide _); [assumption |].
      cbn [fst]. apply Forall_app. split; [assumption |].
      constructor; [| constructor]. left. split; reflexivity.
Qed.

Lemma reset_row_ok db data : Forall row_ok db -> Forall row_ok (reset db data).1.
Proof.
  intros Hdb. unfold reset.
  destruct (query_first db (reset_session_id data)) as [[i r]|];
    [| assumption].
  cbn [commit fst]. apply Forall_insert; [assumption |].
  left. split; reflexivity.
Qed.

Lemma run_row_ok reqs db :
  Forall row_ok db -> Forall row_ok (run fuzz_ratio db reqs).
Proof.
  revert db. induction reqs as [|req reqs IH]; intros db Hdb; [assumption |].
  unfold run. cbn [foldl]. apply IH. destruct req as [data | data]; cbn [serve].
  - now apply handler_row_ok.
  - now apply reset_row_ok.
Qed.

(** C2. In every table reachable from the empty one by POSTs to /handler and
    /reset, each row has [original_text] non-null exactly when its state is
    [awaiting_user_input]. *)
Theorem session_invariant_reachable (reqs : list request) :
  Forall session_invariant (run fuzz_ratio [] reqs).
Proof.
  eapply Forall_impl; [apply run_row_ok; constructor |].
  intros r. apply row_ok_invariant.
Qed.

End EndpointFacts.

(** *** What each request does *)

Section EndpointClaims.
Context `{UnicodeData}.
Variable fuzz_ratio : str -> str -> Z.

(** C6. When the message is empty after trimming (also when the key is
    absent), /handler answers with the prompt for input, [end_session] false
    and no buttons, and the table is left as it was: no row is created or
    changed, whatever the session id. *)
Theorem handler_empty_message db data :
  message_of data = [] ->
  handler fuzz_ratio db data =
    (db, Body {| body_response :=
                   {| text := msg_prompt; end_session := false |};
                 buttons := None |}).
Proof. apply handler_blank. Qed.

(** C7. For a session found in state [awaiting_user_input] whose
    [original_text] is unset ([None]; Python's [not] takes the empty text the
    same way) and a non-empty message, /handler changes nothing in the table
    and answers, as a normal body, with the diagnostic message and no
    buttons. *)
Theorem handler_missing_original db data i r :
  message_of data <> [] ->
  query_first db (json_session_id data) = Some (i, r) ->
  state r = Some awaiting_user_input ->
  truthy (original_text r) = None ->
  handler fuzz_ratio db data =
    (db, Body {| body_response :=
                   {| text := msg_missing; end_session := false |};
                 buttons := None |}).
Proof.
  intros Hm Hq Hs Ht. rewrite (handler_found _ db data i r) by assumption.
  rewrite dispatch_missing by assumption. cbn [fst snd].
  apply query_first_Some in Hq as [Hi _].
  now rewrite list_insert_id.
Qed.



End EndpointClaims.

Section SimilarityBranch.
Context `{UnicodeData}.
Variable fuzz_ratio : str -> str -> Z.

Lemma handler_buttons db data db' b :
  handler fuzz_ratio db data = (db', Body b) ->
  buttons b <> None ->
  exists i r original,
    message_of data <> []
    /\ query_first db (json_session_id data) = Some (i, r)
    /\ state r = Some awaiting_user_input
    /\ original_text r = Some original
    /\ original <> [].
Proof.
  intros Hh Hb. destruct (decide (message_of data = [])) as [He | Hm].
  - rewrite handler_blank in Hh by assumption.
    injection Hh as _ <-. now destruct Hb.
  - rewrite handler_message in Hh by assumption.
    destruct (query_first db (json_session_id data)) as [[i r]|] eqn:Hq.
    + injection Hh as _ <-.
      apply dispatch_buttons in Hb as (Hs & original & Ht).
      apply truthy_Some in Ht as [Ht Hne].
      exists i, r, original. auto.
    + cbn zeta in Hh. rewrite dispatch_new in Hh. cbn [fst snd] in Hh.
      destruct (insert_row db _); [| discriminate Hh].
      injection Hh as _ <-. now destruct Hb.
Qed.

Lemma reset_buttons db data db' b :
  reset db data = (db', Body b) -> buttons b = None.
Proof.
  unfold reset.
  destruct (query_first db (reset_session_id data)) as [[i r]|];
    cbn [commit]; intros Hr; injection Hr as _ <-; reflexivity.
Qed.

(** C3, amended. For a session found in state [awaiting_user_input] whose
    [original_text] is set to a non-empty text, and a non-empty message,
    /handler leaves the table as it was and answers with the text made of the
    percentage scored on the two cleaned texts, the original text as stored
    and the message, with exactly one button, of action type "text".  And no
    other response carries buttons: a body of /handler with buttons comes
    from this branch, and a body of /reset has none. *)
Theorem handler_compares :
  (forall db data i r original,
     message_of data <> [] ->
     query_first db (json_session_id data) = Some (i, r) ->
     state r = Some awaiting_user_input ->
     original_text r = Some original ->
     original <> [] ->
     handler fuzz_ratio db data =
       (db,
        Body {| body_response :=
                  {| text :=
                       txt_percent
                         ++ str_of_int
                              (fuzz_ratio (clean_text original)
                                          (clean_text (message_of data)))
                         ++ txt_percent_sign ++ [newline; newline]
                         ++ txt_original ++ original ++ [newline; newline]
                         ++ txt_yours ++ message_of data;
                     end_session := false |};
                buttons := Some [reset_button] |}))
  /\ action_type (button_action reset_button) = py "text"
  /\ (forall db data db' b,
        handler fuzz_ratio db data = (db', Body b) ->
        buttons b <> None ->
        exists i r original,
          message_of data <> []
          /\ query_first db (json_session_id data) = Some (i, r)
          /\ state r = Some awaiting_user_input
          /\ original_text r = Some original
          /\ original <> [])
  /\ (forall db data db' b,
        reset db data = (db', Body b) -> buttons b = None).
Proof.
  split; [| split; [| split]].
  - intros db data i r original Hm Hq Hs Ht Hne.
    rewrite (handler_found _ db data i r) by assumption.
    rewrite (dispatch_compare _ r original)
      by (rewrite ?Ht; auto using truthy_nonempty).
    cbn [fst snd]. apply query_first_Some in Hq as [Hi _].
    now rewrite list_insert_id.
  - vm_compute. reflexivity.
  - apply handler_buttons.
  - apply reset_buttons.
Qed.

End SimilarityBranch.

(** ** Runs of the model on concrete requests

    The requests below are run with the concrete table [basic_unicode] and the
    scorer [similarity]. *)

#[local] Existing Instance basic_unicode.

(** The first request of a new session, as the program answers it. *)
Lemma first_post_run :
  handler similarity [] quick_fox = ([s1_created], Body (reply msg_error)).
Proof. vm_compute. reflexivity. Qed.

(** C1, as the program runs it: on the empty table, the first POST of
    "The quick fox" for session "s1" does not store the text and does not
    answer that it was saved; it answers with the generic error text and
    leaves a row that still awaits the original.  Only the second POST
    stores the text. *)
Theorem first_post_is_not_saved :
  handler similarity [] quick_fox = ([s1_created], Body (reply msg_error))
  /\ reply msg_error <> reply msg_saved
  /\ s1_created <> s1_stored
  /\ handler similarity [s1_created] quick_fox
     = ([s1_stored], Body (reply msg_saved)).
Proof.
  split; [| split; [| split]].
  - apply first_post_run.
  - vm_compute. discriminate.
  - vm_compute. discriminate.
  - vm_compute. reflexivity.
Qed.

(** A row whose text is set but empty, in state [awaiting_user_input], gets
    the diagnostic message and no buttons. *)
Lemma empty_text_run :
  handler similarity [s1_empty] quick_fox
  = ([s1_empty], Body (reply msg_missing)).
Proof. vm_compute. reflexivity. Qed.

(** C3, as stated, fails: it does not hold that for every session found in
    state [awaiting_user_input] with [original_text] set (not [None]) and
    every non-empty message, /handler answers with a body that carries the
    button.  The row [s1_empty], whose text is set to the empty text, is
    answered with the diagnostic message. *)
Lemma handler_compares_empty_text :
  ~ (forall db data i r original,
       message_of data <> [] ->
       query_first db (json_session_id data) = Some (i, r) ->
       state r = Some awaiting_user_input ->
       original_text r = Some original ->
       exists b,
         (handler similarity db data).2 = Body b
         /\ buttons b = Some [reset_button]).
Proof.
  intros Hclaim.
  destruct (Hclaim [s1_empty] quick_fox 0%nat s1_empty [])
    as (b & Hb & Hbuttons).
  - vm_compute. discriminate.
  - vm_compute. reflexivity.
  - reflexivity.
  - reflexivity.
  - rewrite empty_text_run in Hb. injection Hb as <-. discriminate Hbuttons.
Qed.

Lemma handler_compares_witness :
  handler similarity [s1_stored] quick_fox =
    ([s1_stored],
     Body {| body_response :=
               {| text := txt_percent ++ py "100" ++ txt_percent_sign
                            ++ [newline; newline]
                            ++ txt_original ++ py "The quick fox"
                            ++ [newline; newline]
                            ++ txt_yours ++ py "The quick fox";
                  end_session := false |};
             buttons := Some [reset_button] |}).
Proof.
  pose proof (proj1 (handler_compares similarity)
                [s1_stored] quick_fox 0%nat s1_stored (py "The quick fox"))
    as Hrun.
  vm_compute in Hrun |- *.
  apply Hrun; first [reflexivity | discriminate].
Defined.

Lemma handler_empty_message_witness :
  handler similarity [s1_stored] blank_message =
    ([s1_stored],
     Body {| body_response :=
               {| text := msg_prompt; end_session := false |};
             buttons := None |}).
Proof.
  apply (handler_empty_message similarity [s1_stored] blank_message).
  vm_compute. reflexivity.
Defined.

Lemma handler_missing_original_witness :
  handler similarity [s1_lost] quick_fox =
    ([s1_lost],
     Body {| body_response :=
               {| text := msg_missing; end_session := false |};
             buttons := None |}).
Proof.
  apply (handler_missing_original similarity [s1_lost] quick_fox 0%nat s1_lost).
  - vm_compute. discriminate.
  - vm_compute. reflexivity.
  - reflexivity.
  - reflexivity.
Defined.



(** ** The scorer *)

Lemma ldist_nil_r s : ldist s [] = length s.
Proof. now destruct s. Qed.

Lemma ldist_cons_cons a s b t :
  ldist (a :: s) (b :: t) =
  Nat.min (Nat.min (S (ldist s (b :: t))) (S (ldist (a :: s) t)))
          ((if decide (a = b) then 0 else 2) + ldist s t)%nat.
Proof. reflexivity. Qed.

Lemma ldist_sym s t : ldist s t = ldist t s.
Proof.
  revert t. induction s as [|a s IHs]; intros t.
  - now rewrite ldist_nil_r.
  - induction t as [|b t IHt].
    + reflexivity.
    + rewrite !ldist_cons_cons, IHt, (IHs (b :: t)), (IHs t).
      destruct (decide (a = b)) as [-> | Hab].
      * destruct (decide (b = b)); [lia | contradiction].
      * destruct (decide (b = a)) as [-> | _]; [contradiction | lia].
Qed.

Lemma ldist_le s t : (ldist s t <= length s + length t)%nat.
Proof.
  revert t. induction s as [|a s IHs]; intros t.
  - cbn. lia.
  - destruct t as [|b t].
    + rewrite ldist_nil_r. lia.
    + rewrite ldist_cons_cons. specialize (IHs (b :: t)). cbn [length] in *. lia.
Qed.

Lemma hd_map_tails (f : str -> nat) t : hd 0%nat (map f (tails t)) = f t.
Proof. now destruct t. Qed.

Lemma base_row_spec t : base_row t = map (ldist []) (tails t).
Proof.
  induction t as [|b t IH]; [reflexivity |].
  cbn [base_row]. cbv zeta. rewrite IH, hd_map_tails. reflexivity.
Qed.

Lemma next_row_spec a s t :
  next_row a t (map (ldist s) (tails t)) = map (ldist (a :: s)) (tails t).
Proof.
  induction t as [|b t IH].
  - cbn. now rewrite ldist_nil_r.
  - change (tails (b :: t)) with ((b :: t) :: tails t).
    cbn [map next_row]. cbv zeta.
    rewrite IH, !hd_map_tails, ldist_cons_cons. reflexivity.
Qed.

Lemma ldist_row_spec s t : ldist_row s t = map (ldist s) (tails t).
Proof.
  induction s as [|a s IH]; cbn [ldist_row].
  - apply base_row_spec.
  - rewrite IH. apply next_row_spec.
Qed.

Lemma ldist_dp_spec s t : ldist_dp s t = ldist s t.
Proof. unfold ldist_dp. now rewrite ldist_row_spec, hd_map_tails. Qed.

Lemma round_half_even_range p q :
  (0 < q)%Z -> (0 <= p <= 100 * q)%Z -> (0 <= round_half_even p q <= 100)%Z.
Proof.
  intros Hq Hp. unfold round_half_even.
  pose proof (Z.div_mod p q ltac:(lia)) as Hdm.
  pose proof (Z.mod_pos_bound p q Hq) as Hm.
  assert (Hd : (0 <= p / q <= 100)%Z).
  { split; [apply Z.div_pos; lia |]. apply Z.div_le_upper_bound; lia. }
  cbv zeta.
  destruct (Z.ltb_spec (2 * (p mod q)) q); [lia |].
  assert (p / q < 100)%Z by nia.
  destruct (Z.ltb_spec q (2 * (p mod q))); [lia |].
  destruct (Z.even (p / q)); lia.
Qed.

Lemma similarity_sym x y : similarity x y = similarity y x.
Proof.
  destruct (decide (x = y)) as [-> | Hxy]; [reflexivity |].
  unfold similarity.
  destruct (decide (x = y)) as [He | _]; [contradiction |].
  destruct (decide (y = x)) as [He | _]; [now destruct Hxy |].
  destruct (decide (length x = 0%nat \/ length y = 0%nat)) as [Hx | Hx];
    destruct (decide (length y = 0%nat \/ length x = 0%nat)) as [Hy | Hy];
    try reflexivity; try (exfalso; tauto).
  rewrite !ldist_dp_spec, (ldist_sym y x), (Nat.add_comm (length y)).
  reflexivity.
Qed.

Lemma similarity_refl x : similarity x x = 100%Z.
Proof. unfold similarity. destruct (decide (x = x)); [reflexivity | contradiction]. Qed.

Lemma similarity_range x y : (0 <= similarity x y <= 100)%Z.
Proof.
  unfold similarity.
  destruct (decide (x = y)); [lia |].
  destruct (decide (length x = 0%nat \/ length y = 0%nat)) as [Hx | Hx]; [lia |].
  cbv zeta. rewrite ldist_dp_spec. pose proof (ldist_le x y).
  apply round_half_even_range; lia.
Qed.

(** C10. The scorer is symmetric on cleaned texts (and on all texts), scores
    100 on a text against itself, and every score is an integer between 0 and
    100. *)
Theorem similarity_symmetric_bounded (U : UnicodeData) :
  (forall a b,
     similarity (clean_text a) (clean_text b)
     = similarity (clean_text b) (clean_text a))
  /\ (forall x y, similarity x y = similarity y x)
  /\ (forall x, similarity x x = 100%Z)
  /\ (forall x y, (0 <= similarity x y <= 100)%Z).
Proof.
  split; [| split; [| split]].
  - intros a b. apply similarity_sym.
  - apply similarity_sym.
  - apply similarity_refl.
  - apply similarity_range.
Qed.

(** The general theorems at the concrete table. *)

Lemma clean_text_idempotent_witness :
  clean_text (clean_text (py "  Hello,   World! "))
  = clean_text (py "  Hello,   World! ").
Proof. apply (clean_text_idempotent (H := basic_unicode)). Defined.

Lemma clean_text_refines_reference_witness :
  clean_text (py " The  quick, fox ")
  = normalize_reference (py " The  quick, fox ").
Proof. apply (proj1 (clean_text_refines_reference basic_unicode)). Defined.

Lemma session_invariant_reachable_witness :
  Forall session_invariant
    (run similarity []
       [PostHandler quick_fox; PostHandler blank_message;
        PostHandler quick_fox; PostHandler quick_fox; PostReset reset_s1]).
Proof. apply (session_invariant_reachable similarity). Defined.

Lemma similarity_symmetric_bounded_witness :
  similarity (clean_text (py "Tide!")) (clean_text (py "diet"))
  = similarity (clean_text (py "diet")) (clean_text (py "Tide!")).
Proof. apply (proj1 (similarity_symmetric_bounded basic_unicode)). Defined.

(** * Further properties of the program *)

(** ** Trimming the message *)

Section StripFacts.
Context `{UnicodeData}.

Lemma lstrip_nil s : lstrip s = [] <-> Forall (fun c => isspace c = true) s.
Proof.
  induction s as [|c s IH]; cbn [lstrip].
  - split; [constructor | reflexivity].
  - destruct (isspace c) eqn:Hc.
    + rewrite IH. split; [now constructor |]. now inversion 1.
    + split; [discriminate |]. inversion 1; congruence.
Qed.

Lemma lstrip_head s c t : lstrip s = c :: t -> isspace c = false.
Proof.
  induction s as [|a s IH]; cbn [lstrip]; [discriminate |].
  destruct (isspace a) eqn:Ha; [exact IH |]. congruence.
Qed.

Lemma lstrip_cons_other c t : isspace c = false -> lstrip (c :: t) = c :: t.
Proof. intros Hc. cbn [lstrip]. now rewrite Hc. Qed.

Lemma lstrip_idem s : lstrip (lstrip s) = lstrip s.
Proof.
  destruct (lstrip s) as [|c t] eqn:E; [reflexivity |].
  apply lstrip_cons_other. now apply (lstrip_head s c t).
Qed.

Lemma lstrip_snoc l c :
  isspace c = false -> lstrip (l ++ [c]) = lstrip l ++ [c].
Proof.
  intros Hc. induction l as [|a l IH]; cbn [app lstrip].
  - now rewrite Hc.
  - destruct (isspace a); [exact IH | reflexivity].
Qed.

Lemma rstrip_cons_other c t :
  isspace c = false -> rstrip (c :: t) = c :: rstrip t.
Proof.
  intros Hc. unfold rstrip.
  now rewrite reverse_cons, lstrip_snoc, reverse_snoc.
Qed.

Lemma rstrip_idem s : rstrip (rstrip s) = rstrip s.
Proof. unfold rstrip. now rewrite reverse_involutive, lstrip_idem. Qed.

Lemma rstrip_nil s : rstrip s = [] <-> Forall (fun c => isspace c = true) s.
Proof.
  unfold rstrip. rewrite <- (Forall_reverse _ s), <- lstrip_nil.
  split; intros Hs.
  - apply (f_equal reverse) in Hs. now rewrite reverse_involutive in Hs.
  - now rewrite Hs.
Qed.

Lemma strip_nil s : strip s = [] <-> Forall (fun c => isspace c = true) s.
Proof.
  unfold strip. rewrite rstrip_nil. split.
  - intros Hs. destruct (lstrip s) as [|c t] eqn:E; [now apply lstrip_nil |].
    apply lstrip_head in E. inversion Hs; congruence.
  - intros Hs. apply lstrip_nil in Hs. rewrite Hs. constructor.
Qed.

Lemma strip_idem s : strip (strip s) = strip s.
Proof.
  unfold strip. destruct (lstrip s) as [|c t] eqn:E; [reflexivity |].
  pose proof (lstrip_head s c t E) as Hc.
  rewrite rstrip_cons_other by assumption.
  rewrite lstrip_cons_other by assumption.
  rewrite <- rstrip_cons_other by assumption. apply rstrip_idem.
Qed.

Lemma message_of_blank data :
  message_of data = [] <->
  Forall (fun c => isspace c = true) (default [] (json_user_message data)).
Proof. unfold message_of. apply strip_nil. Qed.

End StripFacts.

(** ** The table under the requests *)

(** The session a request names. *)
Definition request_session (req : request) : option str :=
  match req with
  | PostHandler data => json_session_id data
  | PostReset data => reset_session_id data
  end.

(** The [session_id] column. *)
Definition keys (db : table) : list (option str) := session_id <$> db.

Lemma insert_row_Some db r db' :
  insert_row db r = Some db' ->
  db' = db ++ [with_defaults r]
  /\ is_Some (session_id r)
  /\ session_id r ∉ keys db.
Proof.
  unfold insert_row. destruct (session_id r) as [sid|] eqn:Hsid; [| discriminate].
  destruct (decide _) as [| Hex]; [discriminate |].
  intros Hdb. injection Hdb as <-. split; [reflexivity |]. split; [now eexists |].
  intros Hin. apply Hex. unfold keys in Hin.
  apply list_elem_of_fmap in Hin as (r' & Hr' & Hin).
  apply Exists_exists. exists r'. split; [assumption | congruence].
Qed.

Lemma reset_found db data i r :
  query_first db (reset_session_id data) = Some (i, r) ->
  reset db data = (<[i := cleared r]> db, Body (reply msg_reset)).
Proof. intros Hq. unfold reset. now rewrite Hq. Qed.

Lemma reset_missed db data :
  query_first db (reset_session_id data) = None ->
  reset db data = (db, Body (reply msg_not_found)).
Proof. intros Hq. unfold reset. now rewrite Hq. Qed.

Lemma keys_insert_same db i r r' :
  db !! i = Some r -> session_id r' = session_id r ->
  keys (<[i := r']> db) = keys db.
Proof.
  intros Hi Hsid. unfold keys. rewrite list_fmap_insert, Hsid.
  apply list_insert_id. now rewrite list_lookup_fmap, Hi.
Qed.

Section TableFacts.
Context `{UnicodeData}.
Variable fuzz_ratio : str -> str -> Z.

(** Every way through the dispatch on the state. *)
Lemma dispatch_cases r um :
  (state r = Some awaiting_original
   /\ truthy (original_text r) = None
   /\ dispatch fuzz_ratio r um =
        ({| session_id := session_id r;
            original_text := Some um;
            state := Some awaiting_user_input |}, reply msg_saved))
  \/ (state r = Some awaiting_original
      /\ is_Some (truthy (original_text r))
      /\ dispatch fuzz_ratio r um = (r, reply msg_already))
  \/ (state r = Some awaiting_user_input
      /\ truthy (original_text r) = None
      /\ dispatch fuzz_ratio r um = (r, reply msg_missing))
  \/ (state r = Some awaiting_user_input
      /\ exists original,
           truthy (original_text r) = Some original
           /\ dispatch fuzz_ratio r um =
                (r, {| body_response :=
                         {| text := response_text
                                      (fuzz_ratio (clean_text original)
                                                  (clean_text um))
                                      original um;
                            end_session := false |};
                       buttons := Some [reset_button] |}))
  \/ (state r <> Some awaiting_original
      /\ state r <> Some awaiting_user_input
      /\ dispatch fuzz_ratio r um = (r, reply msg_error)).
Proof.
  unfold dispatch.
  destruct (decide (state r = Some awaiting_original)) as [Hs | Hs].
  - destruct (truthy (original_text r)) eqn:Ht.
    + right. left. split; [assumption |]. split; [now eexists | reflexivity].
    + left. auto.
  - destruct (decide (state r = Some awaiting_user_input)) as [Hs' | Hs'].
    + right. right. destruct (truthy (original_text r)) as [original|] eqn:Ht.
      * right. left. split; [assumption |]. now exists original.
      * left. auto.
    + right. right. right. right. auto.
Qed.

Lemma dispatch_session_id r um :
  session_id (dispatch fuzz_ratio r um).1 = session_id r.
Proof.
  destruct (dispatch_cases r um)
    as [(_ & _ & ->) | [(_ & _ & ->) | [(_ & _ & ->)
       | [(_ & o & _ & ->) | (_ & _ & ->)]]]]; reflexivity.
Qed.

Lemma dispatch_end_session r um :
  end_session (body_response (dispatch fuzz_ratio r um).2) = false.
Proof.
  destruct (dispatch_cases r um)
    as [(_ & _ & ->) | [(_ & _ & ->) | [(_ & _ & ->)
       | [(_ & o & _ & ->) | (_ & _ & ->)]]]]; reflexivity.
Qed.

(** What a request does to the table: nothing, one row rewritten with its
    [session_id] kept, or one row added under a new [session_id]. *)
Lemma serve_table db req :
  (serve fuzz_ratio db req).1 = db
  \/ (exists i r r',
        query_first db (request_session req) = Some (i, r)
        /\ session_id r' = session_id r
        /\ (serve fuzz_ratio db req).1 = <[i := r']> db)
  \/ (exists r',
        query_first db (request_session req) = None
        /\ is_Some (request_session req)
        /\ session_id r' = request_session req
        /\ (request_session req ∉ keys db)
        /\ (serve fuzz_ratio db req).1 = db ++ [r']).
Proof.
  destruct req as [data | data]; cbn [serve request_session].
  - destruct (decide (message_of data = [])) as [He | Hm].
    { left. now rewrite handler_blank. }
    rewrite handler_message by assumption.
    destruct (query_first db (json_session_id data)) as [[i r]|] eqn:Hq.
    + right. left. exists i, r, (dispatch fuzz_ratio r (message_of data)).1.
      split; [reflexivity |]. split; [apply dispatch_session_id | reflexivity].
    + cbn zeta. rewrite dispatch_new. cbn [fst snd].
      destruct (insert_row db _) as [db'|] eqn:Hins; [| now left].
      apply insert_row_Some in Hins as (-> & Hsome & Hnew).
      right. right. exists (with_defaults (UserSession_new (json_session_id data))).
      repeat split; assumption || reflexivity.
  - destruct (query_first db (reset_session_id data)) as [[i r]|] eqn:Hq.
    + right. left. exists i, r, (cleared r).
      split; [reflexivity |]. split; [reflexivity |].
      now rewrite (reset_found db data i r).
    + left. now rewrite reset_missed.
Qed.

Lemma serve_other_row db req j r :
  db !! j = Some r ->
  session_id r <> request_session req ->
  (serve fuzz_ratio db req).1 !! j = Some r.
Proof.
  intros Hj Hne.
  destruct (serve_table db req)
    as [-> | [(i & ri & r' & Hq & _ & ->) | (r' & _ & _ & _ & _ & ->)]].
  - assumption.
  - apply query_first_Some in Hq as [Hi Hsid].
    rewrite list_lookup_insert_ne; [assumption |].
    intros ->. rewrite Hi in Hj. injection Hj as ->. now apply Hne.
  - rewrite lookup_app_l; [assumption |]. now apply lookup_lt_Some in Hj.
Qed.

Lemma serve_keeps_row db req j r :
  db !! j = Some r ->
  exists r', (serve fuzz_ratio db req).1 !! j = Some r'
             /\ session_id r' = session_id r.
Proof.
  intros Hj.
  destruct (serve_table db req)
    as [-> | [(i & ri & r' & Hq & Hsid & ->) | (r' & _ & _ & _ & _ & ->)]].
  - now exists r.
  - apply query_first_Some in Hq as [Hi _].
    destruct (decide (i = j)) as [-> | Hij].
    + exists r'. rewrite list_lookup_insert_eq by now apply lookup_lt_Some in Hj.
      split; [reflexivity |]. congruence.
    + exists r. now rewrite list_lookup_insert_ne.
  - exists r. rewrite lookup_app_l; [auto |]. now apply lookup_lt_Some in Hj.
Qed.

(** X1. A session's row is changed only by requests that carry its session
    id: along any sequence of requests to /handler and /reset none of which
    names the session of a row, the row stays as it is, at its place. *)
Theorem run_other_sessions reqs db j r :
  db !! j = Some r ->
  Forall (fun req => session_id r <> request_session req) reqs ->
  run fuzz_ratio db reqs !! j = Some r.
Proof.
  intros Hj Hreqs. revert db Hj.
  induction Hreqs as [|req reqs Hreq _ IH]; intros db Hj; [assumption |].
  unfold run. cbn [foldl]. apply IH. now apply serve_other_row.
Qed.

(** X2. No request deletes a row or changes its [session_id]: a row of the
    table is still there, under the same session id, after any sequence of
    requests. *)
Theorem run_keeps_rows reqs db j r :
  db !! j = Some r ->
  exists r', run fuzz_ratio db reqs !! j = Some r'
             /\ session_id r' = session_id r.
Proof.
  revert db r. induction reqs as [|req reqs IH]; intros db r Hj.
  - now exists r.
  - destruct (serve_keeps_row db req j r Hj) as (r1 & Hj1 & Hsid1).
    destruct (IH _ _ Hj1) as (r' & Hj' & Hsid').
    exists r'. split; [exact Hj' | congruence].
Qed.

Lemma serve_keys db req :
  NoDup (keys db) -> Forall is_Some (keys db) ->
  NoDup (keys (serve fuzz_ratio db req).1)
  /\ Forall is_Some (keys (serve fuzz_ratio db req).1).
Proof.
  intros Hnd Hsome.
  destruct (serve_table db req)
    as [-> | [(i & ri & r' & Hq & Hsid & ->)
       | (r' & _ & Hs & Hsid & Hnew & ->)]].
  - auto.
  - apply query_first_Some in Hq as [Hi _].
    now rewrite (keys_insert_same db i ri r').
  - unfold keys in *. rewrite fmap_app. cbn [fmap list_fmap]. rewrite Hsid. split.
    + apply NoDup_app. split; [assumption |]. split.
      * intros x Hx Hx'. apply list_elem_of_singleton in Hx'. now subst.
      * apply NoDup_singleton.
    + apply Forall_app. split; [assumption |]. now constructor.
Qed.

(** X3. In every table reachable from the empty one, the session ids are
    pairwise distinct and none is null, so the lookup by session id has at
    most one row to find. *)
Theorem reachable_keys_unique (reqs : list request) :
  NoDup (keys (run fuzz_ratio [] reqs))
  /\ Forall is_Some (keys (run fuzz_ratio [] reqs)).
Proof.
  assert (Hgen : forall db, NoDup (keys db) -> Forall is_Some (keys db) ->
            NoDup (keys (run fuzz_ratio db reqs))
            /\ Forall is_Some (keys (run fuzz_ratio db reqs))).
  { induction reqs as [|req reqs IH]; intros db Hnd Hsome; [auto |].
    unfold run. cbn [foldl].
    destruct (serve_keys db req Hnd Hsome) as [Hnd' Hsome']. now apply IH. }
  apply Hgen; constructor.
Qed.

End TableFacts.

(** ** Errors and the rarely taken branches *)

Section BranchFacts.
Context `{UnicodeData}.
Variable fuzz_ratio : str -> str -> Z.

Lemma handler_missed db data :
  message_of data <> [] ->
  query_first db (json_session_id data) = None ->
  handler fuzz_ratio db data =
    match json_session_id data with
    | Some sid =>
      (db ++ [{| session_id := Some sid;
                 original_text := None;
                 state := Some awaiting_original |}],
       Body (reply msg_error))
    | None => (db, ServerError)
    end.
Proof.
  intros Hm Hq. destruct (json_session_id data) as [sid|] eqn:Hsid.
  - now apply handler_created.
  - rewrite handler_message by assumption. rewrite Hsid, Hq.
    cbn zeta. now rewrite dispatch_new.
Qed.




(** X7. For a session found in state [awaiting_original] that already has a
    text, /handler changes nothing and answers that the text was already
    entered, with no buttons. *)
Theorem handler_already_entered db data i r :
  message_of data <> [] ->
  query_first db (json_session_id data) = Some (i, r) ->
  state r = Some awaiting_original ->
  is_Some (truthy (original_text r)) ->
  handler fuzz_ratio db data =
    (db, Body {| body_response :=
                   {| text := msg_already; end_session := false |};
                 buttons := None |}).
Proof.
  intros Hm Hq Hs [t Ht]. rewrite (handler_found _ db data i r) by assumption.
  destruct (dispatch_cases fuzz_ratio r (message_of data))
    as [(_ & Ht' & _) | [(_ & _ & ->) | [(Hs' & _) | [(Hs' & _) | (Hs' & _)]]]].
  - congruence.
  - cbn [fst snd]. apply query_first_Some in Hq as [Hi _].
    now rewrite list_insert_id.
  - exfalso. apply awaiting_states_differ. congruence.
  - exfalso. apply awaiting_states_differ. congruence.
  - contradiction.
Qed.

(** X8. For a session found with a state that is neither of the two known
    ones (a null state included), /handler changes nothing and answers with
    the generic error text, with no buttons. *)
Theorem handler_unknown_state db data i r :
  message_of data <> [] ->
  query_first db (json_session_id data) = Some (i, r) ->
  state r <> Some awaiting_original ->
  state r <> Some awaiting_user_input ->
  handler fuzz_ratio db data =
    (db, Body {| body_response :=
                   {| text := msg_error; end_session := false |};
                 buttons := None |}).
Proof.
  intros Hm Hq Hs1 Hs2. rewrite (handler_found _ db data i r) by assumption.
  destruct (dispatch_cases fuzz_ratio r (message_of data))
    as [(Hs & _) | [(Hs & _) | [(Hs & _) | [(Hs & _) | (_ & _ & ->)]]]];
    try contradiction.
  cbn [fst snd]. apply query_first_Some in Hq as [Hi _].
  now rewrite list_insert_id.
Qed.

(** X9. Every body the two endpoints answer with has [end_session] false. *)
Theorem end_session_false db req b :
  (serve fuzz_ratio db req).2 = Body b ->
  end_session (body_response b) = false.
Proof.
  destruct req as [data | data]; cbn [serve].
  - destruct (decide (message_of data = [])) as [He | Hm].
    { rewrite handler_blank by assumption. intros Hb. now injection Hb as <-. }
    rewrite handler_message by assumption.
    destruct (query_first db (json_session_id data)) as [[i r]|].
    + intros Hb. injection Hb as <-. apply dispatch_end_session.
    + cbn zeta. rewrite dispatch_new. cbn [fst snd].
      destruct (insert_row db _); [| discriminate].
      intros Hb. now injection Hb as <-.
  - unfold reset.
    destruct (query_first db (reset_session_id data)) as [[i r]|];
      cbn [commit snd]; intros Hb; now injection Hb as <-.
Qed.

End BranchFacts.

(** ** The life of a session *)



(** Two outcomes that differ in their text or in their buttons. *)
Ltac outcomes_differ Hb :=
  apply (f_equal (fun o => match o with
                           | Body b => Some (text (body_response b), buttons b)
                           | ServerError => None
                           end)) in Hb;
  vm_compute in Hb; discriminate Hb.

(** A stored text is never empty and carries no whitespace at its ends. *)
Definition text_trimmed `{UnicodeData} (r : UserSession) : Prop :=
  forall t, original_text r = Some t -> t <> [] /\ strip t = t.

Section SessionLife.
Context `{UnicodeData}.
Variable fuzz_ratio : str -> str -> Z.


(** In a table whose rows are in order, the bodies /handler can answer
    with. *)
Lemma handler_bodies db data :
  Forall row_ok db ->
  message_of data <> [] ->
  (handler fuzz_ratio db data).2 = ServerError
  \/ (exists i r, query_first db (json_session_id data) = Some (i, r)
                  /\ (handler fuzz_ratio db data).2 = Body (reply msg_saved))
  \/ (exists i r b, query_first db (json_session_id data) = Some (i, r)
                    /\ (handler fuzz_ratio db data).2 = Body b
                    /\ buttons b = Some [reset_button])
  \/ (query_first db (json_session_id data) = None
      /\ is_Some (json_session_id data)
      /\ (handler fuzz_ratio db data).2 = Body (reply msg_error)).
Proof.
  intros Hdb Hm.
  destruct (query_first db (json_session_id data)) as [[i r]|] eqn:Hq.
  - rewrite (handler_found _ db data i r) by assumption. cbn [snd].
    pose proof Hq as Hq'. apply query_first_Some in Hq' as [Hi _].
    destruct (Forall_lookup_1 _ _ _ _ Hdb Hi) as [[Hs Ht] | [Hs (c & t & Ht)]].
    + right. left. exists i, r. split; [reflexivity |].
      now rewrite dispatch_store by (rewrite ?Ht; auto).
    + right. right. left.
      rewrite (dispatch_compare _ r (c :: t)) by (rewrite ?Ht; auto).
      eexists i, r, _. split; [reflexivity |]. split; reflexivity.
  - rewrite handler_missed by assumption.
    destruct (json_session_id data) as [sid|]; [| now left].
    right. right. right. split; [reflexivity |]. split; [now eexists | reflexivity].
Qed.

(** X11. Starting from the empty table the two defensive answers never come:
    no request to /handler is answered with the diagnostic message for a
    missing original, nor with the message that the original was already
    entered. *)
Theorem reachable_never_defensive reqs data :
  (handler fuzz_ratio (run fuzz_ratio [] reqs) data).2
    <> Body (reply msg_missing)
  /\ (handler fuzz_ratio (run fuzz_ratio [] reqs) data).2
       <> Body (reply msg_already).
Proof.
  assert (Hdb : Forall row_ok (run fuzz_ratio [] reqs))
    by (apply run_row_ok; constructor).
  destruct (decide (message_of data = [])) as [He | Hm].
  { rewrite handler_blank by assumption. cbn [snd].
    split; intros Hb; outcomes_differ Hb. }
  destruct (handler_bodies _ data Hdb Hm)
    as [-> | [(i & r & _ & ->) | [(i & r & b & _ & -> & Hb) | (_ & _ & ->)]]].
  - split; discriminate.
  - split; intros Hb; outcomes_differ Hb.
  - split; intros Hb'; injection Hb' as ->; discriminate Hb.
  - split; intros Hb; outcomes_differ Hb.
Qed.


Lemma serve_text_trimmed db req :
  Forall text_trimmed db -> Forall text_trimmed (serve fuzz_ratio db req).1.
Proof.
  intros Hdb. destruct req as [data | data]; cbn [serve].
  - destruct (decide (message_of data = [])) as [He | Hm].
    { now rewrite handler_blank. }
    destruct (query_first db (json_session_id data)) as [[i r]|] eqn:Hq.
    + rewrite (handler_found _ db data i r) by assumption. cbn [fst].
      apply Forall_insert; [assumption |].
      apply query_first_Some in Hq as [Hi _].
      pose proof (Forall_lookup_1 _ _ _ _ Hdb Hi) as Hr.
      destruct (dispatch_cases fuzz_ratio r (message_of data))
        as [(_ & _ & ->) | [(_ & _ & ->) | [(_ & _ & ->)
           | [(_ & o & _ & ->) | (_ & _ & ->)]]]]; cbn [fst]; try assumption.
      intros t Ht. cbn [original_text] in Ht. injection Ht as <-.
      split; [assumption |]. unfold message_of. apply strip_idem.
    + rewrite handler_missed by assumption.
      destruct (json_session_id data); [| assumption]. cbn [fst].
      apply Forall_app. split; [assumption |].
      constructor; [| constructor]. intros t Ht. discriminate Ht.
  - unfold reset.
    destruct (query_first db (reset_session_id data)) as [[i r]|];
      [| assumption].
    cbn [commit fst]. apply Forall_insert; [assumption |].
    intros t Ht. discriminate Ht.
Qed.

(** X13. In every table reachable from the empty one, a stored original text
    is non-empty and has no whitespace at either end: what /handler stores
    is the trimmed message, and trimming it again changes nothing. *)
Theorem reachable_text_trimmed (reqs : list request) :
  Forall text_trimmed (run fuzz_ratio [] reqs).
Proof.
  assert (Hgen : forall db, Forall text_trimmed db ->
                            Forall text_trimmed (run fuzz_ratio db reqs)).
  { induction reqs as [|req reqs IH]; intros db Hdb; [assumption |].
    unfold run. cbn [foldl]. apply IH. now apply serve_text_trimmed. }
  apply Hgen. constructor.
Qed.

(** X14. /handler answers with the prompt for input exactly when the message
    is blank: the key is absent, or every character of the message is
    whitespace.  This holds for every table. *)
Theorem handler_prompt_iff db data :
  (handler fuzz_ratio db data).2 = Body (reply msg_prompt)
  <-> Forall (fun c => isspace c = true) (default [] (json_user_message data)).
Proof.
  rewrite <- message_of_blank. split.
  - intros Hb. destruct (decide (message_of data = [])) as [He | Hm];
      [assumption | exfalso].
    rewrite handler_message in Hb by assumption.
    destruct (query_first db (json_session_id data)) as [[i r]|].
    + cbn [snd] in Hb.
      destruct (dispatch_cases fuzz_ratio r (message_of data))
        as [(_ & _ & He) | [(_ & _ & He) | [(_ & _ & He)
           | [(_ & o & _ & He) | (_ & _ & He)]]]];
        rewrite He in Hb; cbn [snd] in Hb.
      * outcomes_differ Hb.
      * outcomes_differ Hb.
      * outcomes_differ Hb.
      * apply (f_equal (fun o => match o with
                                 | Body b => buttons b
                                 | ServerError => None
                                 end)) in Hb. discriminate Hb.
      * outcomes_differ Hb.
    + cbn zeta in Hb. rewrite dispatch_new in Hb. cbn [fst snd] in Hb.
      destruct (insert_row db _); [outcomes_differ Hb | discriminate Hb].
  - intros He. now rewrite handler_blank.
Qed.

End SessionLife.

(** ** The shape of a cleaned text *)

Section CleanerShape.
Context `{UnicodeData}.

(** No two whitespace characters side by side. *)
Fixpoint single_spaced (s : str) : Prop :=
  match s with
  | [] => True
  | c :: s' =>
    match s' with
    | [] => True
    | d :: _ => ~ (isspace c = true /\ isspace d = true)
    end /\ single_spaced s'
  end.

Lemma single_spaced_lookup s i c d :
  single_spaced s -> s !! i = Some c -> s !! S i = Some d ->
  ~ (isspace c = true /\ isspace d = true).
Proof.
  revert i. induction s as [|a s IH]; intros i Hs Hc Hd; [discriminate |].
  destruct Hs as [Ha Hs]. destruct i as [|i].
  - cbn in Hc, Hd. injection Hc as ->. destruct s as [|b s]; [discriminate |].
    cbn in Hd. now injection Hd as ->.
  - now apply (IH i).
Qed.

Lemma single_spaced_word_app w rest :
  Forall (fun c => isspace c = false) w ->
  single_spaced rest -> single_spaced (w ++ rest).
Proof.
  intros Hw Hrest. induction Hw as [|c w Hc Hw IH]; [assumption |].
  cbn [app single_spaced]. split; [| assumption].
  destruct (w ++ rest); [exact I |]. intros [Hc' _]. congruence.
Qed.

Lemma join_head ws c :
  Forall is_word ws -> head (join [space] ws) = Some c -> isspace c = false.
Proof.
  intros Hws. destruct Hws as [|w ws [Hne Hw] Hws]; [discriminate |].
  destruct w as [|a w]; [now destruct Hne |].
  assert (Hh : head (join [space] ((a :: w) :: ws)) = Some a)
    by now destruct ws.
  rewrite Hh. intros Ha. injection Ha as <-. now inversion Hw.
Qed.

Lemma join_single_spaced ws :
  Forall is_word ws -> single_spaced (join [space] ws).
Proof.
  induction 1 as [|w ws [Hne Hw] Hws IH]; [exact I |].
  destruct ws as [|x ws].
  - cbn [join]. rewrite <- (app_nil_r w). now apply single_spaced_word_app.
  - rewrite join_cons_cons. apply single_spaced_word_app; [assumption |].
    cbn [single_spaced]. split; [| assumption].
    destruct (join [space] (x :: ws)) as [|d rest] eqn:E; [exact I |].
    intros [_ Hd]. assert (Hd' : isspace d = false).
    { apply (join_head (x :: ws)); [assumption |]. now rewrite E. }
    congruence.
Qed.

Lemma join_last ws c :
  Forall is_word ws -> last (join [space] ws) = Some c -> isspace c = false.
Proof.
  induction 1 as [|w ws [Hne Hw] Hws IH]; [discriminate |].
  destruct ws as [|x ws].
  - cbn [join]. intros Hl. apply last_Some_elem_of in Hl.
    rewrite Forall_forall in Hw. now apply Hw.
  - rewrite join_cons_cons.
    destruct (join [space] (x :: ws)) as [|d rest] eqn:E.
    + exfalso. inversion Hws as [|? ? [Hx Hxw] _]; subst.
      destruct x as [|a x]; [now destruct Hx |]. destruct ws; discriminate E.
    + rewrite last_app_cons, last_cons_cons. exact IH.
Qed.

Lemma join_nil ws : Forall is_word ws -> join [space] ws = [] -> ws = [].
Proof.
  intros Hws. destruct Hws as [|w ws [Hne Hw] Hws]; [reflexivity |].
  destruct w as [|a w]; [now destruct Hne |]. destruct ws; discriminate.
Qed.

Lemma split_from_nil w s :
  split_from w s = [] <-> w = [] /\ Forall (fun c => isspace c = true) s.
Proof.
  revert w. induction s as [|c s IH]; intros w; cbn [split_from].
  - destruct w; cbn; split; try discriminate; auto.
    intros [Hw _]. discriminate Hw.
  - destruct (isspace c) eqn:Hc.
    + split.
      * intros Hs. apply app_eq_nil in Hs as [Hw Hs]. apply IH in Hs as [_ Hs].
        split; [now destruct w | now constructor].
      * intros [-> Hs]. inversion Hs; subst. cbn. apply IH. auto.
    + rewrite IH. split.
      * intros [Hw _]. now destruct w.
      * intros [_ Hs]. inversion Hs; congruence.
Qed.

(** X15. A cleaned text is made of alphanumeric characters and ASCII spaces
    only; it neither starts nor ends with whitespace, and it has no two
    whitespace characters in a row: its words are separated by single
    spaces. *)
Theorem clean_text_shape text :
  (forall c, c ∈ clean_text text ->
     c = space \/ (isalnum c = true /\ isspace c = false))
  /\ (forall c, head (clean_text text) = Some c -> isspace c = false)
  /\ (forall c, last (clean_text text) = Some c -> isspace c = false)
  /\ (forall i c d,
        clean_text text !! i = Some c ->
        clean_text text !! S i = Some d ->
        ~ (isspace c = true /\ isspace d = true)).
Proof.
  destruct (clean_text_words text) as (ws & -> & Hws).
  assert (Hwords : Forall is_word ws).
  { eapply Forall_impl; [exact Hws |]. now intros w [Hw _]. }
  split; [| split; [| split]].
  - intros c Hc. apply elem_of_join in Hc as [-> | (w & Hw & Hc)]; [now left |].
    right. rewrite Forall_forall in Hws. destruct (Hws w Hw) as [[_ Hns] Hk].
    rewrite Forall_forall in Hns, Hk. specialize (Hns c Hc).
    destruct (Hk c Hc) as [Hkept _]. unfold kept in Hkept.
    rewrite Hns, orb_false_r in Hkept. auto.
  - intros c. now apply join_head.
  - intros c. now apply join_last.
  - intros i c d. apply single_spaced_lookup. now apply join_single_spaced.
Qed.

(** X16. A text cleans to the empty text exactly when its lowercased form
    has no character that is alphanumeric and not whitespace: punctuation,
    symbols and whitespace alone leave nothing to compare. *)
Theorem clean_text_empty_iff text :
  clean_text text = [] <->
  forall c, c ∈ lower text -> isalnum c = true -> isspace c = true.
Proof.
  unfold clean_text, split. split.
  - intros Hj c Hc Ha.
    apply join_nil in Hj.
    + apply split_from_nil in Hj as [_ Hall].
      rewrite Forall_forall in Hall. apply Hall.
      apply list_elem_of_filter. split; [| assumption].
      unfold kept. now rewrite Ha.
    + eapply Forall_impl; [apply split_from_words; constructor |].
      now intros w [Hw _].
  - intros Hall.
    assert (Hs : split_from [] (filter (fun e => kept e = true) (lower text)) = []).
    { apply split_from_nil. split; [reflexivity |].
      apply Forall_forall. intros c Hc.
      apply list_elem_of_filter in Hc as [Hk Hc]. unfold kept in Hk.
      destruct (isalnum c) eqn:Ha; [now apply Hall |]. exact Hk. }
    now rewrite Hs.
Qed.

(** X17. Lowercasing a text before cleaning it changes nothing: the cleaner
    gives the same result on a text and on its lowercased form. *)
Theorem clean_text_lower text : clean_text (lower text) = clean_text text.
Proof.
  unfold clean_text. rewrite (lower_stable text (lower text)); [reflexivity |].
  intros d Hd. now left.
Qed.

End CleanerShape.

(** ** More runs of the model *)

Definition s2 : str := Eval vm_compute in py "s2".

Definition s2_created : UserSession :=
  {| session_id := Some s2;
     original_text := None;
     state := Some awaiting_original |}.

(** Rows that only an outside writer could leave: a text with the state still
    [awaiting_original], and a null state. *)
Definition s1_early : UserSession :=
  {| session_id := Some s1;
     original_text := Some (py "The quick fox");
     state := Some awaiting_original |}.

Definition s1_stateless : UserSession :=
  {| session_id := Some s1; original_text := None; state := None |}.

Definition retold : handler_json :=
  {| json_user_message := Some (py " the quick, brown fox ");
     json_session_id := Some s1 |}.

Ltac run_model := first [reflexivity | vm_compute; first [reflexivity | discriminate]].

Lemma run_other_sessions_witness :
  run similarity [s1_stored; s2_created]
    [PostReset reset_s1; PostHandler quick_fox; PostHandler retold]
    !! 1%nat = Some s2_created.
Proof.
  apply (run_other_sessions similarity
           [PostReset reset_s1; PostHandler quick_fox; PostHandler retold]
           [s1_stored; s2_created] 1%nat s2_created).
  - reflexivity.
  - repeat constructor; run_model.
Defined.

Lemma run_keeps_rows_witness :
  exists r',
    run similarity [s1_stored; s2_created]
      [PostReset reset_s1; PostHandler quick_fox] !! 0%nat = Some r'
    /\ session_id r' = session_id s1_stored.
Proof.
  apply (run_keeps_rows similarity
           [PostReset reset_s1; PostHandler quick_fox]
           [s1_stored; s2_created] 0%nat s1_stored).
  reflexivity.
Defined.


Lemma handler_already_entered_witness :
  handler similarity [s1_early] retold =
    ([s1_early],
     Body {| body_response :=
               {| text := msg_already; end_session := false |};
             buttons := None |}).
Proof.
  apply (handler_already_entered similarity [s1_early] retold 0%nat s1_early).
  - run_model.
  - run_model.
  - reflexivity.
  - now eexists.
Defined.

Lemma handler_unknown_state_witness :
  handler similarity [s1_stateless] retold =
    ([s1_stateless],
     Body {| body_response :=
               {| text := msg_error; end_session := false |};
             buttons := None |}).
Proof.
  apply (handler_unknown_state similarity [s1_stateless] retold
           0%nat s1_stateless).
  - run_model.
  - run_model.
  - discriminate.
  - discriminate.
Defined.

Lemma end_session_false_witness :
  end_session (body_response (reply msg_reset)) = false.
Proof.
  apply (end_session_false similarity [s1_stored] (PostReset reset_s1)).
  reflexivity.
Defined.

